(** * Verification of [src/app/convert_spv.py]

    The script reads a SPIR-V binary and writes its bytes as a sequence of
    C hexadecimal literals ([0x%02x, ]), with a newline and a four-space
    indent before every twelfth literal.  This file gives a shallow
    embedding of the script:
    - the pure formatting of a byte ([f'0x{byte:02x}, ']);
    - the file system, standard output and the Python exceptions of the
      script, as a small state-and-exception monad;
    - [convert_spv_to_inl] and the [__main__] block on top of it. *)

From Stdlib Require Import Arith Lia List String Ascii.
From Stdlib.Strings Require Import Byte.
Import ListNotations.
Open Scope list_scope.
Open Scope bool_scope.
Open Scope string_scope.

(** ** Formatting a byte: [f'{byte:02x}'] *)

Module Fmt.

(** Lowercase digit of value [d] (the [x] presentation type). *)
Definition hex_char (d : nat) : ascii :=
  match String.get d "0123456789abcdef" with
  | Some c => c
  | None => "?"%char
  end.

(** Hexadecimal digits of [n], most significant first, no padding.
    [fuel] bounds the number of digits; [S n] is always enough. *)
Fixpoint hex_digits_aux (fuel n : nat) (acc : string) : string :=
  match fuel with
  | O => acc
  | S f =>
      let acc' := String (hex_char (n mod 16)) acc in
      if Nat.ltb n 16 then acc' else hex_digits_aux f (n / 16) acc'
  end.

Definition hex_digits (n : nat) : string := hex_digits_aux (S n) n "".

Fixpoint replicate (k : nat) (c : ascii) : string :=
  match k with
  | O => ""
  | S k' => String c (replicate k' c)
  end.

(** The [0] flag with width [w]: pad on the left with zeros. *)
Definition pad_left (c : ascii) (w : nat) (s : string) : string :=
  replicate (w - String.length s) c ++ s.

(** [format(byte, '02x')] *)
Definition format_02x (n : nat) : string := pad_left "0" 2 (hex_digits n).

(** [f'0x{byte:02x}, '] *)
Definition token (b : byte) : string :=
  "0x" ++ format_02x (Byte.to_nat b) ++ ", ".

End Fmt.

(** ** The loop of [convert_spv_to_inl], as the text it writes

    [render_from i data] is the concatenation of the strings passed to
    [f.write] by the loop body for [enumerate(data)] started at index [i]. *)

Definition indent : string := String "010"%char "    ".

Fixpoint render_from (i : nat) (data : list byte) : string :=
  match data with
  | [] => ""
  | b :: rest =>
      (if Nat.eqb (i mod 12) 0 then indent else "") ++ Fmt.token b
      ++ render_from (S i) rest
  end.

(** The whole text of the destination file for the input [data]. *)
Definition transcode (data : list byte) : string := render_from 0 data.

(** ** The environment of the script

    The file system maps a path to the bytes of the regular file stored
    there ([None]: no readable file).  [writable] tells whether
    [open(p, 'w')] succeeds (the directory exists, permissions allow it).
    Every [open] call is recorded in [opens], and what [print] writes is
    appended to [stdout].  The output file is opened in text mode; its text
    is ASCII, written byte for byte (POSIX newline handling). *)

Inductive mode := ModeRB | ModeW.

Record World := mkWorld {
  files : string -> option (list byte);
  writable : string -> bool;
  opens : list (string * mode);
  stdout : string
}.

Definition upd (f : string -> option (list byte)) (p : string)
    (v : option (list byte)) : string -> option (list byte) :=
  fun q => if String.eqb q p then v else f q.

Definition set_files (w : World) (f : string -> option (list byte)) : World :=
  mkWorld f (writable w) (opens w) (stdout w).

Definition log_open (w : World) (p : string) (m : mode) : World :=
  mkWorld (files w) (writable w) (app (opens w) [(p, m)]) (stdout w).

(** Python exceptions raised by the script. *)
Inductive exn :=
  | OSError (path : string)
  | IndexError
  | SystemExit (code : nat).

(** State and exception monad. *)
Definition M (A : Type) : Type := World -> (A + exn) * World.

Definition ret {A} (a : A) : M A := fun w => (inl a, w).
Definition raise {A} (e : exn) : M A := fun w => (inr e, w).
Definition bind {A B} (m : M A) (k : A -> M B) : M B :=
  fun w => match m w with
           | (inl a, w') => k a w'
           | (inr e, w') => (inr e, w')
           end.

Notation "x <- m ;; k" := (bind m (fun x => k))
  (at level 61, m at next level, right associativity).
Notation "m ;;; k" := (bind m (fun _ => k))
  (at level 61, right associativity).

(** [with open(p, 'rb') as f: data = f.read()] *)
Definition read_file (p : string) : M (list byte) :=
  fun w =>
    let w1 := log_open w p ModeRB in
    match files w p with
    | Some d => (inl d, w1)
    | None => (inr (OSError p), w1)
    end.

(** [open(p, 'w')]: creates the file or truncates it. *)
Definition open_write (p : string) : M unit :=
  fun w =>
    let w1 := log_open w p ModeW in
    if writable w p then (inl tt, set_files w1 (upd (files w1) p (Some [])))
    else (inr (OSError p), w1).

(** [f.write(s)] on the handle opened on [p]: appends the text. *)
Definition write (p : string) (s : string) : M unit :=
  fun w =>
    let old := match files w p with Some o => o | None => [] end in
    (inl tt, set_files w (upd (files w) p (Some (app old (list_byte_of_string s))))).

(** [print(s)] *)
Definition print (s : string) : M unit :=
  fun w => (inl tt, mkWorld (files w) (writable w) (opens w)
                            (stdout w ++ s ++ String "010"%char "")).

(** [sys.argv[i]] *)
Definition argv_get (argv : list string) (i : nat) : M string :=
  match nth_error argv i with
  | Some a => ret a
  | None => raise IndexError
  end.

(** [for i, byte in enumerate(data)] from index [i], writing to [dst]. *)
Fixpoint write_loop (dst : string) (i : nat) (data : list byte) : M unit :=
  match data with
  | [] => ret tt
  | b :: rest =>
      (if Nat.eqb (i mod 12) 0 then write dst indent else ret tt) ;;;
      write dst (Fmt.token b) ;;;
      write_loop dst (S i) rest
  end.

Definition convert_spv_to_inl (spv_file inl_file : string) : M unit :=
  data <- read_file spv_file ;;
  open_write inl_file ;;;
  write_loop inl_file 0 data.

(** The [if __name__ == '__main__':] block; [argv] is [sys.argv]. *)
Definition main (argv : list string) : M unit :=
  if negb (Nat.eqb (List.length argv) 3) then
    a0 <- argv_get argv 0 ;;
    print ("Usage: " ++ a0 ++ " <input.spv> <output.inl>") ;;;
    raise (SystemExit 1)
  else
    a1 <- argv_get argv 1 ;;
    a2 <- argv_get argv 2 ;;
    convert_spv_to_inl a1 a2 ;;;
    a1' <- argv_get argv 1 ;;
    a2' <- argv_get argv 2 ;;
    print ("Converted " ++ a1' ++ " to " ++ a2').

(** The process: exit status and final environment.  [sys.exit(c)] exits
    with [c]; any other uncaught exception exits with status 1 (after a
    traceback on standard error); falling off the end exits with 0. *)
Definition run (argv : list string) (w : World) : nat * World :=
  match main argv w with
  | (inl _, w') => (0, w')
  | (inr (SystemExit c), w') => (c, w')
  | (inr _, w') => (1, w')
  end.


(** ** Reading the produced text back (following the spec's description)

    These definitions follow the spec's words about the [.inl] format, to be
    compared with what the script writes: a token is [0x], two lowercase
    hexadecimal digits and [, ]; tokens are separated by newlines and
    spaces; a reader strips newlines, spaces and commas and reads each
    remaining piece as a hexadecimal literal. *)

Module Reader.

Definition is_lower_hex (c : ascii) : bool :=
  let n := nat_of_ascii c in
  (Nat.leb 48 n && Nat.leb n 57) || (Nat.leb 97 n && Nat.leb n 102).

(** Value of a hexadecimal digit ([0-9], [a-f]). *)
Definition hex_val (c : ascii) : nat :=
  let n := nat_of_ascii c in
  if Nat.leb n 57 then n - 48 else n - 87.

(** [t] is the token of the value [v]: [0x], two lowercase hexadecimal
    digits of [v] (high digit first), a comma and one space. *)
Definition token_of (t : string) (v : nat) : Prop :=
  exists c1 c2,
    t = String "0" (String "x" (String c1 (String c2 ", "))) /\
    is_lower_hex c1 = true /\ is_lower_hex c2 = true /\
    16 * hex_val c1 + hex_val c2 = v.

Definition token_ofb (t : string) (v : nat) : bool :=
  match t with
  | String a (String x (String c1 (String c2 r))) =>
      Ascii.eqb a "0" && Ascii.eqb x "x" && is_lower_hex c1 && is_lower_hex c2
      && Nat.eqb (16 * hex_val c1 + hex_val c2) v && String.eqb r ", "
  | _ => false
  end.

Definition is_ws (c : ascii) : bool :=
  Ascii.eqb c " " || Ascii.eqb c "010".

Definition all_ws (s : string) : bool := forallb is_ws (list_ascii_of_string s).

(** Separator text [s_k] before token [t_k]: [s_0 t_0 s_1 t_1 ...]. *)
Fixpoint interleave (seps toks : list string) : string :=
  match seps, toks with
  | s :: seps', t :: toks' => s ++ t ++ interleave seps' toks'
  | _, _ => ""
  end.

Definition is_sep (c : ascii) : bool := is_ws c || Ascii.eqb c ",".

Definition flush (cur : list ascii) : list string :=
  match cur with
  | [] => []
  | _ => [string_of_list_ascii (rev cur)]
  end.

(** Maximal runs of non-separator characters; [cur] is the current run,
    reversed. *)
Fixpoint pieces_aux (s : string) (cur : list ascii) : list string :=
  match s with
  | EmptyString => flush cur
  | String c s' =>
      if is_sep c then flush cur ++ pieces_aux s' []
      else pieces_aux s' (c :: cur)
  end.

Definition pieces (s : string) : list string := pieces_aux s [].

Fixpoint hex_value (acc : nat) (ds : string) : option nat :=
  match ds with
  | EmptyString => Some acc
  | String c ds' =>
      if is_lower_hex c then hex_value (16 * acc + hex_val c) ds' else None
  end.

(** A piece [0x<digits>] read as a byte. *)
Definition parse_token (t : string) : option byte :=
  match t with
  | String z (String x ((String _ _) as ds)) =>
      if Ascii.eqb z "0" && Ascii.eqb x "x" then
        match hex_value 0 ds with
        | Some v => Byte.of_nat v
        | None => None
        end
      else None
  | _ => None
  end.

Fixpoint parse_all (ts : list string) : option (list byte) :=
  match ts with
  | [] => Some []
  | t :: ts' =>
      match parse_token t, parse_all ts' with
      | Some b, Some bs => Some (b :: bs)
      | _, _ => None
      end
  end.

Definition parse_output (s : string) : option (list byte) :=
  parse_all (pieces s).

End Reader.

(** Number of occurrences of the character [c] in [s]. *)
Fixpoint count_char (c : ascii) (s : string) : nat :=
  match s with
  | EmptyString => 0
  | String c' s' => (if Ascii.eqb c c' then 1 else 0) + count_char c s'
  end.

(** Text before the token of index [k]. *)
Definition sep_before (k : nat) : string :=
  if Nat.eqb (k mod 12) 0 then indent else "".

Definition usage_line (prog : string) : string :=
  "Usage: " ++ prog ++ " <input.spv> <output.inl>".

Definition newline : string := String "010"%char "".

(** Small environments: [in.spv] holds [src], every path is writable;
    [w_other] has its source at [other.spv], every other path holding
    [0x07] and some earlier output; [w_dirty] has an old [out.inl]. *)
Definition w_other : World :=
  mkWorld (fun p => if String.eqb p "other.spv" then Some [x01; x02] else Some [x07])
          (fun _ => true) [] "earlier output".

Definition w_dirty : World :=
  mkWorld (fun p => if String.eqb p "in.spv" then Some [xff]
                    else Some [x41; x42; x43; x44; x45; x46; x47; x48; x49;
                               x4a; x4b; x4c; x4d; x4e; x4f; x50; x51; x52])
          (fun _ => true) [] "".

Definition w_example (src : list byte) : World :=
  mkWorld (fun p => if String.eqb p "in.spv" then Some src else None)
          (fun _ => true) [] "".


(** ** Views of the produced text used by further properties *)

(** Concatenation of a list of strings. *)
Fixpoint concat_str (l : list string) : string :=
  match l with
  | [] => ""
  | s :: l' => s ++ concat_str l'
  end.

(** Consecutive groups of twelve bytes (the last one may be shorter);
    [fuel] bounds the number of groups. *)
Fixpoint chunks_fuel (fuel : nat) (data : list byte) : list (list byte) :=
  match fuel with
  | O => []
  | S f =>
      match data with
      | [] => []
      | _ => firstn 12 data :: chunks_fuel f (skipn 12 data)
      end
  end.

Definition chunks12 (data : list byte) : list (list byte) :=
  chunks_fuel (List.length data) data.

(** One output line: newline, four spaces, the tokens of a group. *)
Definition line_of (group : list byte) : string :=
  indent ++ concat_str (map Fmt.token group).

(** An environment whose only writable path is [ok.inl]. *)
Definition w_readonly : World :=
  mkWorld (fun p => if String.eqb p "in.spv" then Some [x2a] else None)
          (fun p => String.eqb p "ok.inl") [] "".

(** Characters that may occur in the output. *)
Definition out_char (c : ascii) : bool :=
  Reader.is_lower_hex c || Ascii.eqb c "x" || Ascii.eqb c "," ||
  Ascii.eqb c " " || Ascii.eqb c "010".


(** * Lemmas on the model *)

From Stdlib Require Import FunctionalExtensionality.

Lemma list_byte_of_string_app (s t : string) :
  list_byte_of_string (s ++ t) = app (list_byte_of_string s) (list_byte_of_string t).
Proof.
  induction s as [|c s IH]; simpl; [reflexivity|].
  unfold list_byte_of_string in *; simpl; now rewrite IH.
Qed.

Lemma upd_same f p v : upd f p v p = v.
Proof. unfold upd; now rewrite String.eqb_refl. Qed.

Lemma upd_upd f p v v' : upd (upd f p v) p v' = upd f p v'.
Proof.
  extensionality q; unfold upd; now destruct (String.eqb q p).
Qed.

Lemma upd_id f p : upd f p (f p) = f.
Proof.
  extensionality q; unfold upd.
  destruct (String.eqb_spec q p); now subst.
Qed.

Lemma set_files_files w f : files (set_files w f) = f.
Proof. reflexivity. Qed.

Lemma set_files_twice w f g : set_files (set_files w f) g = set_files w g.
Proof. reflexivity. Qed.

Lemma set_files_id w : set_files w (files w) = w.
Proof. now destruct w. Qed.

Ltac model_simpl :=
  repeat rewrite ?upd_same, ?upd_upd, ?set_files_files, ?set_files_twice.

Lemma render_from_cons i b rest :
  render_from i (b :: rest) = sep_before i ++ Fmt.token b ++ render_from (S i) rest.
Proof. reflexivity. Qed.

Section Loop.

Lemma write_loop_cons dst i b rest :
  write_loop dst i (b :: rest) =
    ((if Nat.eqb (i mod 12) 0 then write dst indent else ret tt) ;;;
     write dst (Fmt.token b) ;;;
     write_loop dst (S i) rest).
Proof. reflexivity. Qed.

Variable dst : string.

(** The loop appends the text [render_from i data] to the file [dst]. *)
Lemma write_loop_spec (data : list byte) :
  forall i w old, files w dst = Some old ->
  write_loop dst i data w =
    (inl tt, set_files w (upd (files w) dst
                (Some (app old (list_byte_of_string (render_from i data)))))).
Proof.
  induction data as [|b rest IH]; intros i w old Hold.
  - simpl; rewrite app_nil_r, <- Hold, upd_id, set_files_id; reflexivity.
  - rewrite write_loop_cons, render_from_cons; unfold sep_before.
    destruct (Nat.eqb (i mod 12) 0);
      unfold bind, write, ret; rewrite ?Hold; model_simpl;
      erewrite IH by (model_simpl; reflexivity);
      model_simpl;
      rewrite !list_byte_of_string_app, ?app_assoc; simpl; rewrite ?app_nil_r; reflexivity.
Qed.

End Loop.

Lemma convert_ok s d w data :
  files w s = Some data -> writable w d = true ->
  convert_spv_to_inl s d w =
    (inl tt, set_files (log_open (log_open w s ModeRB) d ModeW)
               (upd (files w) d (Some (list_byte_of_string (transcode data))))).
Proof.
  intros Hs Hd.
  unfold convert_spv_to_inl, bind, read_file; rewrite Hs.
  unfold open_write; cbn [writable log_open]; rewrite Hd.
  rewrite (write_loop_spec d data 0 _ []) by (simpl; apply upd_same).
  unfold transcode; cbn [files set_files log_open]; now rewrite upd_upd.
Qed.

Lemma convert_read_error s d w :
  files w s = None ->
  convert_spv_to_inl s d w = (inr (OSError s), log_open w s ModeRB).
Proof. intros Hs; unfold convert_spv_to_inl, bind, read_file; now rewrite Hs. Qed.

(** The final environment of a successful run. *)
Definition success_world (prog s d : string) (w : World) (data : list byte) : World :=
  mkWorld (upd (files w) d (Some (list_byte_of_string (transcode data))))
          (writable w) (app (opens w) [(s, ModeRB); (d, ModeW)])
          (stdout w ++ ("Converted " ++ s ++ " to " ++ d) ++ newline).

Lemma run_ok prog s d w data :
  files w s = Some data -> writable w d = true ->
  run [prog; s; d] w = (0, success_world prog s d w data).
Proof.
  intros Hs Hd; unfold run, main; cbn [List.length Nat.eqb negb].
  unfold argv_get; cbn [nth_error]; unfold bind at 1 2, ret.
  unfold bind at 1; rewrite (convert_ok s d w data Hs Hd).
  unfold success_world, print, newline; simpl; rewrite <- app_assoc; reflexivity.
Qed.

Lemma run_read_error prog s d w :
  files w s = None ->
  run [prog; s; d] w = (1, log_open w s ModeRB).
Proof.
  intros Hs; unfold run, main; cbn [List.length Nat.eqb negb].
  unfold argv_get; cbn [nth_error]; unfold bind at 1 2, ret.
  unfold bind at 1; now rewrite (convert_read_error s d w Hs).
Qed.

(** ** The text of the loop *)

Lemma str_app_assoc (a b c : string) : (a ++ b) ++ c = a ++ (b ++ c).
Proof. induction a as [|x a IH]; simpl; [reflexivity | now rewrite IH]. Qed.

Lemma str_app_nil_r (a : string) : a ++ "" = a.
Proof. induction a as [|x a IH]; simpl; [reflexivity | now rewrite IH]. Qed.

Lemma render_from_interleave (data : list byte) :
  forall i, render_from i data =
    Reader.interleave (map sep_before (seq i (List.length data))) (map Fmt.token data).
Proof.
  induction data as [|b rest IH]; intros i; [reflexivity|].
  rewrite render_from_cons, IH; reflexivity.
Qed.

(** Every byte's token has the shape the spec describes (checked on all
    256 byte values). *)
Lemma token_ofb_all (b : byte) : Reader.token_ofb (Fmt.token b) (Byte.to_nat b) = true.
Proof. destruct b; reflexivity. Qed.

Lemma token_ofb_sound (t : string) (v : nat) :
  Reader.token_ofb t v = true -> Reader.token_of t v.
Proof.
  unfold Reader.token_ofb, Reader.token_of.
  destruct t as [|a [|x [|c1 [|c2 r]]]]; try discriminate.
  intros H; repeat rewrite Bool.andb_true_iff in H.
  destruct H as [[[[[Ha Hx] H1] H2] Hv] Hr].
  apply Ascii.eqb_eq in Ha, Hx; apply String.eqb_eq in Hr; apply Nat.eqb_eq in Hv.
  subst; exists c1, c2; repeat split; assumption.
Qed.

Lemma sep_before_ws (k : nat) : Reader.all_ws (sep_before k) = true.
Proof. unfold sep_before; now destruct (Nat.eqb (k mod 12) 0). Qed.

(** Counting newlines. *)
Lemma count_char_app (c : ascii) (s t : string) :
  count_char c (s ++ t) = count_char c s + count_char c t.
Proof. induction s as [|x s IH]; simpl; [reflexivity | rewrite IH; lia]. Qed.

Lemma token_no_newline (b : byte) : count_char "010" (Fmt.token b) = 0.
Proof. destruct b; reflexivity. Qed.

Lemma count_newline_render (data : list byte) :
  forall i, count_char "010" (render_from i data) =
    List.length (filter (fun k => Nat.eqb (k mod 12) 0) (seq i (List.length data))).
Proof.
  induction data as [|b rest IH]; intros i; [reflexivity|].
  rewrite render_from_cons, !count_char_app, token_no_newline, IH.
  change (seq i (List.length (b :: rest))) with (i :: seq (S i) (List.length rest)).
  cbn [filter]; unfold sep_before.
  destruct (Nat.eqb (i mod 12) 0); simpl; lia.
Qed.

Lemma count_multiples_12 (n : nat) :
  List.length (filter (fun k => Nat.eqb (k mod 12) 0) (seq 0 n)) = (n + 11) / 12.
Proof.
  induction n as [|n IH]; [reflexivity|].
  rewrite seq_S, filter_app, length_app, IH; cbn [filter]; rewrite Nat.add_0_l.
  assert (Hn : n = 12 * (n / 12) + n mod 12) by (apply Nat.div_mod; lia).
  assert (Hr : n mod 12 < 12) by (apply Nat.mod_upper_bound; lia).
  set (q := n / 12) in *; set (r := n mod 12) in *.
  clearbody q r; subst n; clear IH.
  replace ((12 * q + r) mod 12) with r
    by (rewrite Nat.add_comm, Nat.mul_comm, Nat.Div0.mod_add;
        symmetry; apply Nat.mod_small; lia).
  replace (12 * q + r + 11) with (r + 11 + q * 12) by lia.
  replace (S (12 * q + r) + 11) with (r + 12 + q * 12) by lia.
  rewrite !Nat.div_add by lia.
  do 12 (destruct r as [|r]; [simpl; lia|]); lia.
Qed.

(** Reading the text back. *)
Lemma pieces_sep (k : nat) (s : string) :
  Reader.pieces_aux (sep_before k ++ s) [] = Reader.pieces_aux s [].
Proof. unfold sep_before; now destruct (Nat.eqb (k mod 12) 0). Qed.

Lemma pieces_token (b : byte) (s : string) :
  Reader.pieces_aux (Fmt.token b ++ s) [] =
    ("0x" ++ Fmt.format_02x (Byte.to_nat b)) :: Reader.pieces_aux s [].
Proof. destruct b; reflexivity. Qed.

Lemma parse_token_byte (b : byte) :
  Reader.parse_token ("0x" ++ Fmt.format_02x (Byte.to_nat b)) = Some b.
Proof. destruct b; reflexivity. Qed.

Lemma pieces_render (data : list byte) :
  forall i, Reader.pieces_aux (render_from i data) [] =
    map (fun b => "0x" ++ Fmt.format_02x (Byte.to_nat b)) data.
Proof.
  induction data as [|b rest IH]; intros i; [reflexivity|].
  rewrite render_from_cons, pieces_sep, pieces_token, IH; reflexivity.
Qed.

(** The spec's example: thirteen bytes, two indented lines. *)
Example transcode_13 :
  transcode [x00; x01; x02; x03; x04; x05; x06; x07; x08; x09; x0a; x0b; x0c] =
    indent ++ "0x00, 0x01, 0x02, 0x03, 0x04, 0x05, 0x06, 0x07, 0x08, 0x09, 0x0a, 0x0b, "
    ++ indent ++ "0x0c, ".
Proof. reflexivity. Qed.

(** * The claims *)

(** C4: with a number of command-line arguments other than two, the script
    prints [Usage: <prog> <input.spv> <output.inl>] (one line on standard
    output) and exits with status 1; the file system is untouched and no
    file is opened. *)
Theorem usage_on_wrong_arg_count (prog : string) (args : list string) (w : World)
    (Hargc : List.length args <> 2) :
  run (prog :: args) w =
    (1, mkWorld (files w) (writable w) (opens w)
                (stdout w ++ usage_line prog ++ newline)).
Proof.
  unfold run, main.
  replace (Nat.eqb (List.length (prog :: args)) 3) with false
    by (symmetry; apply Nat.eqb_neq; simpl; lia).
  reflexivity.
Qed.

Lemma usage_on_wrong_arg_count_witness :
  List.length ["input.spv"] <> 2 /\
  run ["convert_spv.py"; "input.spv"] (mkWorld (fun _ => None) (fun _ => true) [] "") =
    (1, mkWorld (fun _ => None) (fun _ => true) []
                ("" ++ usage_line "convert_spv.py" ++ newline)).
Proof.
  split; [simpl; lia|].
  apply (usage_on_wrong_arg_count "convert_spv.py" ["input.spv"]
           (mkWorld (fun _ => None) (fun _ => true) [] "")).
  simpl; lia.
Defined.

(** C5: an empty input file gives an empty output file. *)
Theorem empty_input_empty_output (prog s d : string) (w : World)
    (Hs : files w s = Some []) (Hd : writable w d = true) :
  exists w', run [prog; s; d] w = (0, w') /\ files w' d = Some [].
Proof.
  eexists; split; [apply (run_ok prog s d w [] Hs Hd)|].
  simpl; apply upd_same.
Qed.

Lemma empty_input_empty_output_witness :
  files (w_example []) "in.spv" = Some [] /\ writable (w_example []) "out.inl" = true /\
  exists w', run ["conv"; "in.spv"; "out.inl"] (w_example []) = (0, w') /\
             files w' "out.inl" = Some [].
Proof.
  split; [reflexivity|]; split; [reflexivity|].
  apply empty_input_empty_output; reflexivity.
Defined.

(** C6: the single byte [0x00] gives exactly the 11 characters
    newline, four spaces, [0x00, ]. *)
Theorem single_zero_byte_output (prog s d : string) (w : World)
    (Hs : files w s = Some [x00]) (Hd : writable w d = true) :
  exists w', run [prog; s; d] w = (0, w') /\
    files w' d = Some (list_byte_of_string (String "010"%char "    0x00, ")) /\
    String.length (String "010"%char "    0x00, ") = 11.
Proof.
  eexists; split; [apply (run_ok prog s d w [x00] Hs Hd)|].
  split; [simpl; apply upd_same | reflexivity].
Qed.

Lemma single_zero_byte_output_witness :
  files (w_example [x00]) "in.spv" = Some [x00] /\
  writable (w_example [x00]) "out.inl" = true /\
  exists w', run ["conv"; "in.spv"; "out.inl"] (w_example [x00]) = (0, w') /\
    files w' "out.inl" = Some (list_byte_of_string (String "010"%char "    0x00, ")) /\
    String.length (String "010"%char "    0x00, ") = 11.
Proof.
  split; [reflexivity|]; split; [reflexivity|].
  apply single_zero_byte_output; reflexivity.
Defined.

(** C7: a successful conversion prints the line
    [Converted <input-path> to <output-path>] and exits with status 0. *)
Theorem success_message (prog s d : string) (w : World) (data : list byte)
    (Hs : files w s = Some data) (Hd : writable w d = true) :
  exists w', run [prog; s; d] w = (0, w') /\
    stdout w' = stdout w ++ ("Converted " ++ s ++ " to " ++ d) ++ newline.
Proof.
  eexists; split; [apply (run_ok prog s d w data Hs Hd)|reflexivity].
Qed.

Lemma success_message_witness :
  files (w_example [x01]) "in.spv" = Some [x01] /\
  writable (w_example [x01]) "out.inl" = true /\
  exists w', run ["conv"; "in.spv"; "out.inl"] (w_example [x01]) = (0, w') /\
    stdout w' = stdout (w_example [x01]) ++ ("Converted " ++ "in.spv" ++ " to " ++ "out.inl") ++ newline.
Proof.
  split; [reflexivity|]; split; [reflexivity|].
  apply (success_message "conv" "in.spv" "out.inl" (w_example [x01]) [x01]); reflexivity.
Defined.

(** C8: the content of the destination file depends on the input bytes
    only: two successful runs on sources with the same bytes, whatever the
    paths, program names and the rest of the environment, write the same
    bytes. *)
Theorem output_deterministic (p1 s1 d1 p2 s2 d2 : string) (w1 w2 : World)
    (data : list byte)
    (H1 : files w1 s1 = Some data) (Hw1 : writable w1 d1 = true)
    (H2 : files w2 s2 = Some data) (Hw2 : writable w2 d2 = true) :
  fst (run [p1; s1; d1] w1) = 0 /\ fst (run [p2; s2; d2] w2) = 0 /\
  files (snd (run [p1; s1; d1] w1)) d1 = files (snd (run [p2; s2; d2] w2)) d2.
Proof.
  rewrite (run_ok p1 s1 d1 w1 data H1 Hw1), (run_ok p2 s2 d2 w2 data H2 Hw2).
  simpl; now rewrite !upd_same.
Qed.

Lemma output_deterministic_witness :
  files (w_example [x01; x02]) "in.spv" = Some [x01; x02] /\
  writable (w_example [x01; x02]) "out.inl" = true /\
  files w_other "other.spv" = Some [x01; x02] /\ writable w_other "res.inl" = true /\
  fst (run ["conv"; "in.spv"; "out.inl"] (w_example [x01; x02])) = 0 /\
  fst (run ["tool"; "other.spv"; "res.inl"] w_other) = 0 /\
  files (snd (run ["conv"; "in.spv"; "out.inl"] (w_example [x01; x02]))) "out.inl" =
    files (snd (run ["tool"; "other.spv"; "res.inl"] w_other)) "res.inl".
Proof.
  split; [reflexivity|]; split; [reflexivity|];
  split; [reflexivity|]; split; [reflexivity|].
  apply (output_deterministic "conv" "in.spv" "out.inl" "tool" "other.spv" "res.inl"
           (w_example [x01; x02]) w_other [x01; x02]); reflexivity.
Defined.

(** C9: the destination is opened with mode ['w'] (created or truncated):
    after a successful run it holds exactly the text for the source bytes,
    whatever it held before. *)
Theorem destination_truncated (prog s d : string) (w : World) (data : list byte)
    (Hs : files w s = Some data) (Hd : writable w d = true) :
  exists w', run [prog; s; d] w = (0, w') /\
    files w' d = Some (list_byte_of_string (transcode data)) /\
    opens w' = app (opens w) [(s, ModeRB); (d, ModeW)].
Proof.
  eexists; split; [apply (run_ok prog s d w data Hs Hd)|].
  split; [simpl; apply upd_same | reflexivity].
Qed.

Lemma destination_truncated_witness :
  files w_dirty "in.spv" = Some [xff] /\ writable w_dirty "out.inl" = true /\
  exists w', run ["conv"; "in.spv"; "out.inl"] w_dirty = (0, w') /\
    files w' "out.inl" = Some (list_byte_of_string (transcode [xff])) /\
    opens w' = app (opens w_dirty) [("in.spv", ModeRB); ("out.inl", ModeW)].
Proof.
  split; [reflexivity|]; split; [reflexivity|].
  apply destination_truncated; reflexivity.
Defined.

(** C10: when the source cannot be read, the script exits with status 1,
    the file system is unchanged and the only file opened is the source
    (in mode ['rb']); the destination is never opened. *)
Theorem read_error_leaves_destination (prog s d : string) (w : World)
    (Hs : files w s = None) :
  exists w', run [prog; s; d] w = (1, w') /\
    files w' = files w /\ opens w' = app (opens w) [(s, ModeRB)] /\
    stdout w' = stdout w.
Proof.
  exists (log_open w s ModeRB); split; [apply run_read_error, Hs|].
  repeat split.
Qed.

Lemma read_error_leaves_destination_witness :
  files (w_example []) "missing.spv" = None /\
  exists w', run ["conv"; "missing.spv"; "out.inl"] (w_example []) = (1, w') /\
    files w' = files (w_example []) /\
    opens w' = app (opens (w_example [])) [("missing.spv", ModeRB)] /\
    stdout w' = stdout (w_example []).
Proof.
  split; [reflexivity|].
  apply read_error_leaves_destination; reflexivity.
Defined.

(** C1: the text written for the bytes [B] is [s_0 t_0 s_1 t_1 ... ], with
    exactly one token [t_k] per byte, in the order of [B], each token being
    [0x], two lowercase hexadecimal digits of the byte and [, ], and the
    separators [s_k] made of whitespace only; byte 255 gives [0xff, ]. *)
Theorem one_token_per_byte (B : list byte) :
  (exists seps toks,
     List.length seps = List.length B /\
     Forall (fun s => Reader.all_ws s = true) seps /\
     Forall2 (fun t b => Reader.token_of t (Byte.to_nat b)) toks B /\
     transcode B = Reader.interleave seps toks) /\
  Fmt.token xff = "0xff, ".
Proof.
  split; [|reflexivity].
  exists (map sep_before (seq 0 (List.length B))), (map Fmt.token B).
  split; [now rewrite length_map, length_seq|].
  split; [apply Forall_map, Forall_forall; intros k _; apply sep_before_ws|].
  split; [|apply render_from_interleave].
  clear; induction B as [|b B IH]; constructor; [|exact IH].
  apply token_ofb_sound, token_ofb_all.
Qed.

(** C2: a newline and four spaces come right before the token of index [k]
    when [k mod 12 = 0], and nothing comes before the other tokens nor after
    the last one; tokens contain no newline, so the text has exactly
    [ceil(N / 12)] newlines. *)
Theorem newline_every_twelve (B : list byte) :
  transcode B =
    Reader.interleave
      (map (fun k => if Nat.eqb (k mod 12) 0 then String "010"%char "    " else "")
           (seq 0 (List.length B)))
      (map Fmt.token B) /\
  (forall b, count_char "010" (Fmt.token b) = 0) /\
  count_char "010" (transcode B) = (List.length B + 11) / 12.
Proof.
  split; [apply render_from_interleave|].
  split; [apply token_no_newline|].
  unfold transcode; rewrite count_newline_render; apply count_multiples_12.
Qed.

(** C3: reading the hexadecimal literals back out of the text (dropping
    newlines, spaces and commas) gives back exactly the input bytes. *)
Theorem round_trip (B : list byte) : Reader.parse_output (transcode B) = Some B.
Proof.
  unfold Reader.parse_output, Reader.pieces, transcode; rewrite pieces_render.
  induction B as [|b B IH]; [reflexivity|].
  cbn [map Reader.parse_all]; rewrite parse_token_byte, IH; reflexivity.
Qed.

(** * Further properties of the script *)

(** ** The text of the loop *)

Lemma token_length (b : byte) : String.length (Fmt.token b) = 6.
Proof. destruct b; reflexivity. Qed.

Lemma str_length_app (s t : string) :
  String.length (s ++ t) = String.length s + String.length t.
Proof. induction s as [|c s IH]; simpl; [reflexivity | now rewrite IH]. Qed.

Lemma list_byte_of_string_length (s : string) :
  List.length (list_byte_of_string s) = String.length s.
Proof.
  induction s as [|c s IH]; [reflexivity|].
  unfold list_byte_of_string in *; simpl; now rewrite IH.
Qed.

Lemma render_from_length (data : list byte) :
  forall i, String.length (render_from i data) =
    6 * List.length data +
    5 * List.length (filter (fun k => Nat.eqb (k mod 12) 0) (seq i (List.length data))).
Proof.
  induction data as [|b rest IH]; intros i; [reflexivity|].
  rewrite render_from_cons, !str_length_app, token_length, IH.
  change (seq i (List.length (b :: rest))) with (i :: seq (S i) (List.length rest)).
  cbn [filter]; unfold sep_before.
  destruct (Nat.eqb (i mod 12) 0); simpl; lia.
Qed.

(** The output file of [N] bytes has [6 N + 5 ceil(N / 12)] bytes: six per
    token and five per line start. *)
Theorem output_size (data : list byte) :
  List.length (list_byte_of_string (transcode data)) =
    6 * List.length data + 5 * ((List.length data + 11) / 12).
Proof.
  rewrite list_byte_of_string_length; unfold transcode.
  rewrite render_from_length, count_multiples_12; reflexivity.
Qed.

Lemma render_from_app (a b : list byte) :
  forall i, render_from i (a ++ b) =
    render_from i a ++ render_from (i + List.length a) b.
Proof.
  induction a as [|x a IH]; intros i.
  - simpl; now rewrite Nat.add_0_r.
  - simpl app; rewrite !render_from_cons, IH, !str_app_assoc.
    simpl List.length; now rewrite Nat.add_succ_r.
Qed.

Lemma render_from_shift12 (data : list byte) :
  forall i, render_from (i + 12) data = render_from i data.
Proof.
  induction data as [|b rest IH]; intros i; [reflexivity|].
  rewrite !render_from_cons; unfold sep_before.
  replace ((i + 12) mod 12) with (i mod 12)
    by (replace (i + 12) with (i + 1 * 12) by lia; now rewrite Nat.Div0.mod_add).
  replace (S (i + 12)) with (S i + 12) by lia; now rewrite IH.
Qed.

Lemma render_from_mult12 (data : list byte) (k : nat) :
  render_from (12 * k) data = transcode data.
Proof.
  induction k as [|k IH]; [reflexivity|].
  replace (12 * S k) with (12 * k + 12) by lia.
  now rewrite render_from_shift12.
Qed.

(** Streaming: the text for [a ++ b] is the text for [a] followed by the
    text for [b] when [a] has a multiple of twelve bytes. *)
Theorem transcode_app_mult12 (a b : list byte)
    (Ha : List.length a mod 12 = 0) :
  transcode (a ++ b) = transcode a ++ transcode b.
Proof.
  unfold transcode at 1; rewrite render_from_app; simpl.
  rewrite (Nat.div_mod_eq (List.length a) 12), Ha, Nat.add_0_r.
  now rewrite render_from_mult12.
Qed.

Lemma transcode_app_mult12_witness :
  List.length [x00; x01; x02; x03; x04; x05; x06; x07; x08; x09; x0a; x0b] mod 12 = 0 /\
  transcode ([x00; x01; x02; x03; x04; x05; x06; x07; x08; x09; x0a; x0b] ++ [xfe; xff]) =
    transcode [x00; x01; x02; x03; x04; x05; x06; x07; x08; x09; x0a; x0b] ++
    transcode [xfe; xff].
Proof.
  split; [reflexivity|].
  apply transcode_app_mult12; reflexivity.
Defined.

Lemma render_from_no_break (rest : list byte) :
  forall i, 0 < i -> i + List.length rest <= 12 ->
  render_from i rest = concat_str (map Fmt.token rest).
Proof.
  induction rest as [|b rest IH]; intros i Hi Hlen; [reflexivity|].
  rewrite render_from_cons, IH by (simpl in Hlen; lia).
  unfold sep_before; simpl in Hlen.
  rewrite Nat.mod_small by lia.
  destruct i as [|i]; [lia|]; reflexivity.
Qed.

Lemma transcode_group (g : list byte) :
  g <> [] -> List.length g <= 12 -> transcode g = line_of g.
Proof.
  destruct g as [|b rest]; [congruence|]; intros _ Hlen.
  unfold transcode; rewrite render_from_cons.
  rewrite render_from_no_break by (simpl in Hlen; lia); reflexivity.
Qed.

Lemma chunks_fuel_nil (f : nat) : chunks_fuel f [] = [].
Proof. now destruct f. Qed.

Lemma chunks_fuel_spec (f : nat) :
  forall data, List.length data <= f ->
  transcode data = concat_str (map line_of (chunks_fuel f data)) /\
  List.concat (chunks_fuel f data) = data /\
  Forall (fun g => 1 <= List.length g <= 12) (chunks_fuel f data) /\
  Forall (fun g => List.length g = 12) (removelast (chunks_fuel f data)).
Proof.
  induction f as [|f IH]; intros data Hlen.
  - destruct data; [repeat split; constructor | simpl in Hlen; lia].
  - destruct data as [|b rest]; [repeat split; constructor|].
    set (data := b :: rest) in *.
    assert (Hsplit : data = app (firstn 12 data) (skipn 12 data)) by (symmetry; apply firstn_skipn).
    assert (Hne : firstn 12 data <> []) by (subst data; simpl; discriminate).
    assert (Hsl : List.length (skipn 12 data) <= f) by (rewrite length_skipn; lia).
    destruct (IH (skipn 12 data) Hsl) as [Ht [Hc [Hg Hr]]].
    assert (Hch : chunks_fuel (S f) data = firstn 12 data :: chunks_fuel f (skipn 12 data))
      by reflexivity.
    rewrite Hch.
    destruct (Nat.le_gt_cases (List.length data) 12) as [Hle|Hgt].
    + assert (Hsk : skipn 12 data = []) by (apply skipn_all2; lia).
      rewrite Hsk, chunks_fuel_nil in *.
      rewrite firstn_all2 by lia.
      simpl; rewrite str_app_nil_r, app_nil_r.
      repeat split; [apply transcode_group; subst data; [discriminate|lia]
                    | constructor; [subst data; simpl in *; lia | constructor] | constructor].
    + assert (H12 : List.length (firstn 12 data) = 12) by (rewrite length_firstn; lia).
      repeat split.
      * rewrite Hsplit at 1; unfold transcode; rewrite render_from_app, H12.
        change (0 + 12) with (12 * 1); rewrite render_from_mult12.
        fold (transcode (firstn 12 data)); rewrite transcode_group by (auto; lia).
        rewrite Ht; reflexivity.
      * cbn [List.concat]; rewrite Hc; apply firstn_skipn.
      * constructor; [lia | exact Hg].
      * assert (Hrest : chunks_fuel f (skipn 12 data) <> []).
        { intros E; rewrite E in Hc; cbn [List.concat] in Hc.
          apply (f_equal (@List.length byte)) in Hc.
          rewrite length_skipn in Hc; cbn [List.length] in Hc; lia. }
        cbn [removelast].
        destruct (chunks_fuel f (skipn 12 data)) as [|g gs]; [congruence|].
        constructor; [exact H12 | exact Hr].
Qed.

(** Line structure: the bytes are cut into consecutive groups of twelve
    (only the last group may be shorter, none is empty), and the text is,
    for each group, a newline, four spaces and the tokens of the group. *)
Theorem output_lines (data : list byte) :
  transcode data = concat_str (map line_of (chunks12 data)) /\
  List.concat (chunks12 data) = data /\
  Forall (fun g => 1 <= List.length g <= 12) (chunks12 data) /\
  Forall (fun g => List.length g = 12) (removelast (chunks12 data)).
Proof. apply chunks_fuel_spec; lia. Qed.

(** Only newlines, spaces, commas, [x] and lowercase hexadecimal digits
    occur in the output: it is plain ASCII text. *)
Lemma list_ascii_of_string_app (s t : string) :
  list_ascii_of_string (s ++ t) = app (list_ascii_of_string s) (list_ascii_of_string t).
Proof. induction s as [|c s IH]; simpl; [reflexivity | now rewrite IH]. Qed.

Lemma token_chars (b : byte) : forallb out_char (list_ascii_of_string (Fmt.token b)) = true.
Proof. destruct b; reflexivity. Qed.

Theorem output_chars (data : list byte) :
  forallb out_char (list_ascii_of_string (transcode data)) = true.
Proof.
  unfold transcode; generalize 0.
  induction data as [|b rest IH]; intros i; [reflexivity|].
  rewrite render_from_cons, !list_ascii_of_string_app, !forallb_app, token_chars, IH.
  unfold sep_before; now destruct (Nat.eqb (i mod 12) 0).
Qed.

(** ** The [:02x] formatting *)

Lemma hex_char_digit (d : nat) :
  d < 16 -> Reader.is_lower_hex (Fmt.hex_char d) = true /\
            Reader.hex_val (Fmt.hex_char d) = d.
Proof.
  intros Hd; do 16 (destruct d as [|d]; [split; reflexivity|]); lia.
Qed.

Lemma hex_value_cons (a : nat) (c : ascii) (s : string) :
  Reader.hex_value a (String c s) =
    if Reader.is_lower_hex c then Reader.hex_value (16 * a + Reader.hex_val c) s else None.
Proof. reflexivity. Qed.

Lemma hex_digits_aux_value (fuel : nat) :
  forall n acc a, n < 16 ^ fuel ->
  exists k, Reader.hex_value a (Fmt.hex_digits_aux fuel n acc) =
            Reader.hex_value (a * 16 ^ k + n) acc.
Proof.
  induction fuel as [|f IH]; intros n acc a Hn.
  - simpl in Hn; exists 0; simpl; now replace (a * 1 + n) with a by lia.
  - cbn [Fmt.hex_digits_aux].
    destruct (Nat.ltb_spec n 16) as [Hlt|Hge].
    + exists 1; rewrite hex_value_cons, Nat.mod_small by exact Hlt.
      destruct (hex_char_digit n Hlt) as [-> ->].
      f_equal; rewrite Nat.pow_1_r; lia.
    + assert (Hq : n / 16 < 16 ^ f)
        by (apply Nat.Div0.div_lt_upper_bound; rewrite <- Nat.pow_succ_r'; exact Hn).
      destruct (IH (n / 16) (String (Fmt.hex_char (n mod 16)) acc) a Hq) as [k Hk].
      exists (S k); rewrite Hk, hex_value_cons.
      assert (Hr : n mod 16 < 16) by (apply Nat.mod_upper_bound; lia).
      destruct (hex_char_digit (n mod 16) Hr) as [-> ->].
      f_equal.
      pose proof (Nat.div_mod_eq n 16) as Hdm.
      rewrite Nat.pow_succ_r'; nia.
Qed.

Lemma hex_value_zeros (k : nat) (s : string) :
  Reader.hex_value 0 (Fmt.replicate k "0" ++ s) = Reader.hex_value 0 s.
Proof. induction k as [|k IH]; [reflexivity | exact IH]. Qed.

(** The formatting [format(n, '02x')] is read back as [n] for every
    natural number, and gives exactly two digits for every byte. *)
Theorem format_02x_reads_back (n : nat) :
  Reader.hex_value 0 (Fmt.format_02x n) = Some n /\
  (forall b : byte, String.length (Fmt.format_02x (Byte.to_nat b)) = 2).
Proof.
  split; [|intros b; destruct b; reflexivity].
  unfold Fmt.format_02x, Fmt.pad_left, Fmt.hex_digits.
  rewrite hex_value_zeros.
  assert (Hn : n < 16 ^ S n).
  { apply (Nat.lt_le_trans _ (16 ^ n)); [apply Nat.pow_gt_lin_r; lia|].
    apply Nat.pow_le_mono_r; lia. }
  destruct (hex_digits_aux_value (S n) n "" 0 Hn) as [k ->].
  reflexivity.
Qed.

(** ** Exit status and effects of [run] on the remaining paths *)


Lemma convert_write_error s d w data :
  files w s = Some data -> writable w d = false ->
  convert_spv_to_inl s d w = (inr (OSError d), log_open (log_open w s ModeRB) d ModeW).
Proof.
  intros Hs Hd; unfold convert_spv_to_inl, bind, read_file; rewrite Hs.
  unfold open_write; cbn [writable log_open]; now rewrite Hd.
Qed.

Lemma run_write_error prog s d w data :
  files w s = Some data -> writable w d = false ->
  run [prog; s; d] w = (1, log_open (log_open w s ModeRB) d ModeW).
Proof.
  intros Hs Hd; unfold run, main; cbn [List.length Nat.eqb negb].
  unfold argv_get; cbn [nth_error]; unfold bind at 1 2, ret.
  unfold bind at 1; now rewrite (convert_write_error s d w data Hs Hd).
Qed.

(** When the destination cannot be opened for writing, the script exits
    with status 1 after opening the source and attempting the destination;
    no file changes and nothing is printed. *)
Theorem unwritable_destination (prog s d : string) (w : World) (data : list byte)
    (Hs : files w s = Some data) (Hd : writable w d = false) :
  exists w', run [prog; s; d] w = (1, w') /\
    files w' = files w /\ stdout w' = stdout w /\
    opens w' = app (opens w) [(s, ModeRB); (d, ModeW)].
Proof.
  exists (log_open (log_open w s ModeRB) d ModeW).
  split; [apply (run_write_error prog s d w data Hs Hd)|].
  repeat split; simpl; now rewrite <- app_assoc.
Qed.

Lemma unwritable_destination_witness :
  files w_readonly "in.spv" = Some [x2a] /\ writable w_readonly "out.inl" = false /\
  exists w', run ["conv"; "in.spv"; "out.inl"] w_readonly = (1, w') /\
    files w' = files w_readonly /\ stdout w' = stdout w_readonly /\
    opens w' = app (opens w_readonly) [("in.spv", ModeRB); ("out.inl", ModeW)].
Proof.
  split; [reflexivity|]; split; [reflexivity|].
  apply (unwritable_destination "conv" "in.spv" "out.inl" w_readonly [x2a]); reflexivity.
Defined.



